(** * The filecoin ABI value codec ([abi/abi.go])

    A shallow embedding of package [abi]: the [Type] tag, the [Value]
    carrier, [Serialize] / [Deserialize], the bulk adapters [ToValues] /
    [FromValues] and the registry check [TypeMatches], followed by the
    properties the specification states about them and by further
    properties of the code. *)

From Stdlib Require Import ZArith NArith List Lia.
From Stdlib Require Import Strings.String Strings.Ascii Strings.Byte.
From stdpp Require Import gmap strings pretty.

Import ListNotations.
Local Open Scope string_scope.

(** ** Go runtime data *)

(** A Go slice header is either nil or points at a (possibly empty) run of
    elements; [len] is 0 for both, but the two are distinguishable. *)
Definition slice (A : Type) : Type := option (list A).

Definition len {A : Type} (s : slice A) : nat :=
  match s with
  | None => 0
  | Some l => length l
  end.

Definition elems {A : Type} (s : slice A) : list A :=
  match s with
  | None => []
  | Some l => l
  end.

(** A Go pointer is nil or refers to a pointee.  Addresses are not tracked:
    two pointers are identified when their pointees are equal. *)
Definition ptr (A : Type) : Type := option A.

(** A Go call either returns its results or panics. *)
Inductive outcome (A : Type) : Type :=
| Return (a : A)
| Panic.
Arguments Return {A} a.
Arguments Panic {A}.

(** Go strings are immutable byte sequences.  [[]byte(s)] always allocates
    a non-nil slice; [string(b)] reads the elements of [b]. *)
Definition bytes_of_string (s : string) : slice byte :=
  Some (list_byte_of_string s).

Definition string_of_bytes (b : slice byte) : string :=
  string_of_list_byte (elems b).

(** ** [math/big]: the two methods of [*big.Int] the codec calls *)
Module big.

(** A [big.Int] is a sign and a magnitude; it is carried here as the
    integer it denotes. *)
Definition Int : Type := Z.

Definition byte_of_N (n : N) : byte :=
  match Byte.of_N (n mod 256) with
  | Some b => b
  | None => x00
  end.

(** [nat.bytes] writes the magnitude from its least significant byte
    backwards into the buffer and stops at the first all-zero remainder,
    so no leading zero byte is produced. *)
Fixpoint write_bytes (fuel : nat) (n : N) (buf : list byte) : list byte :=
  match fuel with
  | O => buf
  | S fuel' =>
      if (n =? 0)%N then buf
      else write_bytes fuel' (n / 256) (byte_of_N n :: buf)
  end.

Definition nat_bytes (n : N) : list byte :=
  write_bytes (N.to_nat (N.size n)) n [].

(** [nat.setBytes]: the big-endian unsigned value of a byte string. *)
Definition nat_setBytes (buf : list byte) : N :=
  fold_left (fun acc b => (acc * 256 + Byte.to_N b)%N) buf 0%N.

(** [x.Bytes()]: the absolute value of [x] as a big-endian byte slice. *)
Definition Bytes (x : Int) : slice byte :=
  Some (nat_bytes (Z.abs_N x)).

(** [big.NewInt(0).SetBytes(buf)]: [buf] read as a big-endian unsigned
    integer. *)
Definition SetBytes (buf : slice byte) : Int :=
  Z.of_N (nat_setBytes (elems buf)).

End big.

(** ** [types.Address] *)
Module types.

(** Modelled from the spec: the declaration of [types.Address] lives in
    package [types], outside this file.  The specification describes it
    as an opaque, byte-sequence-backed identifier with a byte projection
    and no validation on construction; the codec converts it with
    [[]byte(addr)] and [types.Address(data)] and builds its zero value
    from the empty string literal, so it is taken to be a string type. *)
Definition Address : Type := string.

End types.

(** ** Dynamic types and interface values *)
Module reflect.

(** The dynamic types an [interface{}] may hold: the four the codec
    knows, and any other Go type, identified by the name [%T] prints. *)
Inductive rtype : Type :=
| AddressT
| BigIntPtrT
| ByteSliceT
| StringT
| OtherT (name : string).

#[global] Instance rtype_eq_dec : EqDecision rtype.
Proof. solve_decision. Defined.

(** A [reflect.Type] is an interface value: [None] is the nil
    [reflect.Type] that [reflect.TypeOf(nil)] returns. *)
Definition Type_ : Type := option rtype.

End reflect.

(** The values of [interface{}]: the untyped nil, or a dynamic type with a
    value of that type.  A [*big.Int] and a [[]byte] may be typed nils. *)
Inductive iface : Type :=
| INil
| IAddress (a : types.Address)
| IBigInt (p : ptr big.Int)
| IBytes (b : slice byte)
| IString (s : string)
| IOther (name : string) (repr : string).

Definition TypeOf (v : iface) : reflect.Type_ :=
  match v with
  | INil => None
  | IAddress _ => Some reflect.AddressT
  | IBigInt _ => Some reflect.BigIntPtrT
  | IBytes _ => Some reflect.ByteSliceT
  | IString _ => Some reflect.StringT
  | IOther name _ => Some (reflect.OtherT name)
  end.

(** ** [fmt]: the verbs used in the error messages *)
Module fmt.

(** [%T] *)
Definition verb_T (v : iface) : string :=
  match TypeOf v with
  | None => "<nil>"
  | Some reflect.AddressT => "types.Address"
  | Some reflect.BigIntPtrT => "*big.Int"
  | Some reflect.ByteSliceT => "[]uint8"
  | Some reflect.StringT => "string"
  | Some (reflect.OtherT name) => name
  end.

(** [%d] on an unsigned integer *)
Definition verb_d (n : N) : string := pretty n.

End fmt.

(** Go [error] values built in this package: the [*errorString] of
    [fmt.Errorf], identified by its message, and [*typeError]. *)
Inductive error : Type :=
| errorString (msg : string)
| typeError (exp got : iface).

Definition Error (e : error) : string :=
  match e with
  | errorString msg => msg
  | typeError exp got =>
      "expected type " ++ fmt.verb_T exp ++ ", got " ++ fmt.verb_T got
  end.

(** ** Package [abi] *)
Module abi.

(** [var ErrInvalidType = fmt.Errorf("invalid type")] *)
Definition ErrInvalidType : error := errorString "invalid type".

(** [type Type uint64].  Tags are only compared, never computed with, so
    no wrap-around arises. *)
Definition Type_ : Type := N.

Definition Invalid : Type_ := 0%N.
Definition Address : Type_ := 1%N.
Definition Integer : Type_ := 2%N.
Definition Bytes : Type_ := 3%N.
Definition String : Type_ := 4%N.

(** [func (t Type) String() string] *)
Definition Type_String (t : Type_) : string :=
  if (t =? Invalid)%N then "<invalid>"
  else if (t =? Address)%N then "types.Address"
  else if (t =? Integer)%N then "*big.Int"
  else if (t =? Bytes)%N then "[]byte"
  else if (t =? String)%N then "string"
  else "<unknown type>".

(** [type Value struct { Type Type; Val interface{} }] *)
Record Value : Type := mkValue {
  Value_Type : Type_;
  Value_Val : iface
}.

(** [fmt.Errorf("unrecognized Type: %d", t)] *)
Definition errUnrecognized (t : Type_) : error :=
  errorString ("unrecognized Type: " ++ fmt.verb_d t).

(** [fmt.Errorf("unsupported type: %T", v)] *)
Definition errUnsupported (v : iface) : error :=
  errorString ("unsupported type: " ++ fmt.verb_T v).

(** [func (av *Value) Serialize() ([]byte, error)], on a non-nil
    receiver.  A type assertion [av.Val.(T)] succeeds exactly when the
    dynamic type of [av.Val] is [T]; calling [Bytes] through a nil
    [*big.Int] dereferences it. *)
Definition Serialize (av : Value) : outcome (slice byte * option error) :=
  let t := Value_Type av in
  if (t =? Invalid)%N then Return (None, Some ErrInvalidType)
  else if (t =? Address)%N then
    match Value_Val av with
    | IAddress addr => Return (bytes_of_string addr, None)
    | _ => Return (None, Some (typeError (IAddress EmptyString) (Value_Val av)))
    end
  else if (t =? Integer)%N then
    match Value_Val av with
    | IBigInt intgr =>
        match intgr with
        | Some x => Return (big.Bytes x, None)
        | None => Panic
        end
    | _ => Return (None, Some (typeError (IBigInt (Some 0%Z)) (Value_Val av)))
    end
  else if (t =? Bytes)%N then
    match Value_Val av with
    | IBytes b => Return (b, None)
    | _ => Return (None, Some (typeError (IBytes (Some [])) (Value_Val av)))
    end
  else if (t =? String)%N then
    match Value_Val av with
    | IString s => Return (bytes_of_string s, None)
    | _ => Return (None, Some (typeError (IString EmptyString) (Value_Val av)))
    end
  else Return (None, Some (errUnrecognized t)).

(** The loop of [ToValues]: [out] is the slice built so far; the first
    element of no supported dynamic type abandons it. *)
Fixpoint ToValues_loop (i : list iface) (out : list (ptr Value))
  : slice (ptr Value) * option error :=
  match i with
  | [] => (Some out, None)
  | v :: rest =>
      match v with
      | IAddress _ => ToValues_loop rest (out ++ [Some (mkValue Address v)])
      | IBigInt _ => ToValues_loop rest (out ++ [Some (mkValue Integer v)])
      | IBytes _ => ToValues_loop rest (out ++ [Some (mkValue Bytes v)])
      | IString _ => ToValues_loop rest (out ++ [Some (mkValue String v)])
      | _ => (None, Some (errUnsupported v))
      end
  end.

(** [func ToValues(i []interface{}) ([]*Value, error)] *)
Definition ToValues (i : slice iface) : slice (ptr Value) * option error :=
  if (len i =? 0)%nat then (None, None)
  else ToValues_loop (elems i) [].

(** The loop of [FromValues]; [v.Val] on a nil [*Value] dereferences it. *)
Fixpoint FromValues_loop (vals : list (ptr Value)) (out : list iface)
  : outcome (slice iface) :=
  match vals with
  | [] => Return (Some out)
  | None :: _ => Panic
  | Some v :: rest => FromValues_loop rest (out ++ [Value_Val v])
  end.

(** [func FromValues(vals []*Value) []interface{}] *)
Definition FromValues (vals : slice (ptr Value)) : outcome (slice iface) :=
  if (len vals =? 0)%nat then Return None
  else FromValues_loop (elems vals) [].

(** [func Deserialize(data []byte, t Type)], returning a [*Value] and an
    [error] *)
Definition Deserialize (data : slice byte) (t : Type_)
  : ptr Value * option error :=
  if (t =? Invalid)%N then (None, Some ErrInvalidType)
  else if (t =? Address)%N then
    (Some (mkValue t (IAddress (string_of_bytes data))), None)
  else if (t =? Integer)%N then
    (Some (mkValue t (IBigInt (Some (big.SetBytes data)))), None)
  else if (t =? Bytes)%N then
    (Some (mkValue t (IBytes data)), None)
  else if (t =? String)%N then
    (Some (mkValue t (IString (string_of_bytes data))), None)
  else (None, Some (errUnrecognized t)).

(** [var typeTable = map[Type]reflect.Type{...}] *)
Definition typeTable : gmap N reflect.Type_ :=
  <[Address := TypeOf (IAddress EmptyString)]>
    (<[Integer := TypeOf (IBigInt (Some 0%Z))]>
       (<[Bytes := TypeOf (IBytes (Some []))]>
          (<[String := TypeOf (IString EmptyString)]> ∅))).

(** [func TypeMatches(t Type, val reflect.Type) bool] *)
Definition TypeMatches (t : Type_) (val : reflect.Type_) : bool :=
  match typeTable !! t with
  | None => false
  | Some rt => bool_decide (rt = val)
  end.

End abi.

(** ** Vocabulary of the specification *)

(** The five members of the tag enumeration, and the four encodable ones. *)
Definition members : list abi.Type_ :=
  [abi.Invalid; abi.Address; abi.Integer; abi.Bytes; abi.String].

Definition valid_tags : list abi.Type_ :=
  [abi.Address; abi.Integer; abi.Bytes; abi.String].

(** A native value is supported when its dynamic type is one of the four
    cases of the type switch in [ToValues]. *)
Definition supported (v : iface) : bool :=
  match TypeOf v with
  | Some reflect.AddressT
  | Some reflect.BigIntPtrT
  | Some reflect.ByteSliceT
  | Some reflect.StringT => true
  | _ => false
  end.

(** Encoding [v] succeeds and decoding the result under the same tag gives
    [v] back. *)
Definition round_trips (v : abi.Value) : Prop :=
  exists data : slice byte,
    abi.Serialize v = Return (data, None) /\
    abi.Deserialize data (abi.Value_Type v) = (Some v, None).

(** The slice of non-nil pointers to the given values. *)
Definition pointers (vs : list abi.Value) : slice (ptr abi.Value) :=
  Some (map Some vs).

(** The tag the type switch of [ToValues] attaches to a supported value
    (Invalid, never attached, stands in for the default case). *)
Definition tag_of (v : iface) : abi.Type_ :=
  match v with
  | IAddress _ => abi.Address
  | IBigInt _ => abi.Integer
  | IBytes _ => abi.Bytes
  | IString _ => abi.String
  | _ => abi.Invalid
  end.

Definition tagged (v : iface) : abi.Value := abi.mkValue (tag_of v) v.

(** The four outcomes of encoding as the specification lists them, for one
    value: the Invalid tag, a valid tag with a payload of another
    representation than the registered one, a tag outside the enumeration,
    and every remaining case. *)
Definition Serialize_as_stated (av : abi.Value) : Prop :=
  (abi.Value_Type av = abi.Invalid ->
     abi.Serialize av = Return (None, Some abi.ErrInvalidType)) /\
  (forall rt, abi.typeTable !! abi.Value_Type av = Some rt ->
     TypeOf (abi.Value_Val av) <> rt ->
     exists exp, TypeOf exp = rt /\
       abi.Serialize av = Return (None, Some (typeError exp (abi.Value_Val av)))) /\
  (~ In (abi.Value_Type av) members ->
     abi.Serialize av
       = Return (None, Some (abi.errUnrecognized (abi.Value_Type av)))) /\
  (forall rt, abi.typeTable !! abi.Value_Type av = Some rt ->
     TypeOf (abi.Value_Val av) = rt ->
     exists data, abi.Serialize av = Return (data, None)).

(** A byte string without its leading zero bytes. *)
Fixpoint strip_zeros (l : list byte) : list byte :=
  match l with
  | [] => []
  | b :: l' => if Byte.eqb b x00 then strip_zeros l' else l
  end.

(** A value whose payload has the representation the registry gives its
    tag. *)
Definition well_tagged (v : abi.Value) : Prop :=
  abi.TypeMatches (abi.Value_Type v) (TypeOf (abi.Value_Val v)) = true.

(** Case analysis on a tag, in the order of the switch statements. *)
Ltac case_tag t :=
  destruct (N.eqb_spec t abi.Invalid) as [->|?];
  [|destruct (N.eqb_spec t abi.Address) as [->|?];
    [|destruct (N.eqb_spec t abi.Integer) as [->|?];
      [|destruct (N.eqb_spec t abi.Bytes) as [->|?];
        [|destruct (N.eqb_spec t abi.String) as [->|?]]]]].

(** * Properties *)

(** ** The messages of the errors *)

Example errUnrecognized_message :
  Error (abi.errUnrecognized 17%N) = "unrecognized Type: 17".
Proof. vm_compute. reflexivity. Qed.

Example errUnsupported_message :
  Error (abi.errUnsupported INil) = "unsupported type: <nil>" /\
  Error (abi.errUnsupported (IBytes None)) = "unsupported type: []uint8".
Proof. split; reflexivity. Qed.

Example typeError_message :
  Error (typeError (IBigInt (Some 0%Z)) (IString "x"))
    = "expected type *big.Int, got string".
Proof. reflexivity. Qed.

(** ** The big-endian magnitude codec *)
Section BigEndian.

Local Open Scope N_scope.

Lemma byte_of_N_to_N (n : N) : Byte.to_N (big.byte_of_N n) = n mod 256.
Proof.
  unfold big.byte_of_N.
  destruct (Byte.of_N (n mod 256)) as [b|] eqn:E.
  - apply Byte.to_of_N. exact E.
  - apply Byte.of_N_None_iff in E.
    pose proof (N.mod_upper_bound n 256). lia.
Qed.

Lemma fold_setBytes_acc (buf : list byte) (a : N) :
  fold_left (fun acc b => acc * 256 + Byte.to_N b) buf a
  = a * 256 ^ N.of_nat (length buf) + big.nat_setBytes buf.
Proof.
  unfold big.nat_setBytes. revert a.
  induction buf as [|b buf IH]; intros a.
  - simpl. lia.
  - cbn [fold_left length].
    rewrite (IH (a * 256 + Byte.to_N b)), (IH (0 * 256 + Byte.to_N b)).
    rewrite Nat2N.inj_succ, N.pow_succ_r'. lia.
Qed.

Lemma nat_setBytes_cons (b : byte) (buf : list byte) :
  big.nat_setBytes (b :: buf)
  = Byte.to_N b * 256 ^ N.of_nat (length buf) + big.nat_setBytes buf.
Proof.
  unfold big.nat_setBytes at 1. cbn [fold_left].
  rewrite fold_setBytes_acc. lia.
Qed.

(** Reading back what [write_bytes] wrote in front of [buf]. *)
Lemma setBytes_write_bytes (fuel : nat) :
  forall (n : N) (buf : list byte),
    n < 256 ^ N.of_nat fuel ->
    big.nat_setBytes (big.write_bytes fuel n buf)
    = n * 256 ^ N.of_nat (length buf) + big.nat_setBytes buf.
Proof.
  induction fuel as [|fuel IH]; intros n buf Hn.
  - simpl in Hn. assert (n = 0) by lia. subst n. simpl. lia.
  - cbn [big.write_bytes]. destruct (N.eqb_spec n 0) as [->|Hnz].
    + lia.
    + rewrite Nat2N.inj_succ, N.pow_succ_r' in Hn.
      rewrite IH.
      * rewrite nat_setBytes_cons, byte_of_N_to_N.
        cbn [length]. rewrite Nat2N.inj_succ, N.pow_succ_r'.
        pose proof (N.div_mod' n 256) as D. nia.
      * apply N.Div0.div_lt_upper_bound. lia.
Qed.

Lemma size_bound (n : N) : n < 256 ^ N.of_nat (N.to_nat (N.size n)).
Proof.
  rewrite N2Nat.id.
  destruct n as [|p]; [reflexivity|].
  pose proof (N.size_gt (N.pos p)) as H.
  eapply N.lt_le_trans; [exact H|].
  change 256 with (2 ^ 8). rewrite <- N.pow_mul_r.
  apply N.pow_le_mono_r; lia.
Qed.

Lemma nat_setBytes_nat_bytes (n : N) :
  big.nat_setBytes (big.nat_bytes n) = n.
Proof.
  unfold big.nat_bytes.
  rewrite setBytes_write_bytes by apply size_bound.
  cbn. lia.
Qed.

End BigEndian.

(** [SetBytes] after [Bytes] returns the absolute value. *)
Lemma SetBytes_Bytes (x : big.Int) : big.SetBytes (big.Bytes x) = Z.abs x.
Proof.
  unfold big.SetBytes, big.Bytes. cbn [elems].
  rewrite nat_setBytes_nat_bytes. apply N2Z.inj_abs_N.
Qed.

(** [write_bytes] never puts a zero byte in front of what it is given. *)
Lemma write_bytes_head (fuel : nat) :
  forall (n : N) (buf : list byte),
    n <> 0%N -> (n < 256 ^ N.of_nat fuel)%N ->
    exists b rest, big.write_bytes fuel n buf = b :: rest /\ b <> x00.
Proof.
  induction fuel as [|fuel IH]; intros n buf Hnz Hn.
  - simpl in Hn. lia.
  - cbn [big.write_bytes]. destruct (N.eqb_spec n 0%N) as [|_]; [contradiction|].
    rewrite Nat2N.inj_succ, N.pow_succ_r' in Hn.
    destruct (N.eq_dec (n / 256)%N 0%N) as [Hq|Hq].
    + rewrite Hq. exists (big.byte_of_N n), buf. split.
      * destruct fuel; reflexivity.
      * intros Hb. pose proof (byte_of_N_to_N n) as Hm.
        rewrite Hb in Hm. cbn in Hm.
        pose proof (N.div_mod' n 256%N). lia.
    + apply IH; [exact Hq|]. apply N.Div0.div_lt_upper_bound. lia.
Qed.

Lemma nat_bytes_minimal (n : N) : hd_error (big.nat_bytes n) <> Some x00.
Proof.
  destruct (N.eq_dec n 0%N) as [->|Hnz]; [discriminate|].
  destruct (write_bytes_head _ n [] Hnz (size_bound n)) as (b & rest & E & Hb).
  unfold big.nat_bytes. rewrite E. cbn. congruence.
Qed.

Lemma nat_bytes_nil (n : N) : big.nat_bytes n = [] <-> n = 0%N.
Proof.
  split.
  - intros E. rewrite <- (nat_setBytes_nat_bytes n), E. reflexivity.
  - intros ->. reflexivity.
Qed.

(** ** The registry *)

Lemma typeTable_lookup (t : abi.Type_) :
  abi.typeTable !! t =
    if (t =? abi.Address)%N then Some (Some reflect.AddressT)
    else if (t =? abi.Integer)%N then Some (Some reflect.BigIntPtrT)
    else if (t =? abi.Bytes)%N then Some (Some reflect.ByteSliceT)
    else if (t =? abi.String)%N then Some (Some reflect.StringT)
    else None.
Proof.
  unfold abi.typeTable.
  destruct (N.eqb_spec t abi.Address) as [->|?]; [apply lookup_insert_eq|].
  rewrite lookup_insert_ne by congruence.
  destruct (N.eqb_spec t abi.Integer) as [->|?]; [apply lookup_insert_eq|].
  rewrite lookup_insert_ne by congruence.
  destruct (N.eqb_spec t abi.Bytes) as [->|?]; [apply lookup_insert_eq|].
  rewrite lookup_insert_ne by congruence.
  destruct (N.eqb_spec t abi.String) as [->|?]; [apply lookup_insert_eq|].
  rewrite lookup_insert_ne by congruence.
  apply lookup_empty.
Qed.

Lemma typeTable_valid (t : abi.Type_) :
  is_Some (abi.typeTable !! t) <-> In t valid_tags.
Proof.
  rewrite typeTable_lookup. unfold valid_tags. cbn [In].
  destruct (N.eqb_spec t abi.Address); [split; eauto|].
  destruct (N.eqb_spec t abi.Integer); [split; eauto|].
  destruct (N.eqb_spec t abi.Bytes); [split; eauto|].
  destruct (N.eqb_spec t abi.String); [split; eauto 6|].
  split; [intros [? E]; discriminate E | intuition congruence].
Qed.

Lemma typeTable_entries (t : abi.Type_) (R : reflect.Type_) :
  abi.typeTable !! t = Some R <->
    (t = abi.Address /\ R = Some reflect.AddressT) \/
    (t = abi.Integer /\ R = Some reflect.BigIntPtrT) \/
    (t = abi.Bytes /\ R = Some reflect.ByteSliceT) \/
    (t = abi.String /\ R = Some reflect.StringT).
Proof.
  rewrite typeTable_lookup.
  destruct (N.eqb_spec t abi.Address) as [->|?].
  { split; [intros [= <-]; auto | intros [[_ ->]|[[? _]|[[? _]|[? _]]]]; easy]. }
  destruct (N.eqb_spec t abi.Integer) as [->|?].
  { split; [intros [= <-]; auto | intros [[? _]|[[_ ->]|[[? _]|[? _]]]]; easy]. }
  destruct (N.eqb_spec t abi.Bytes) as [->|?].
  { split; [intros [= <-]; auto | intros [[? _]|[[? _]|[[_ ->]|[? _]]]]; easy]. }
  destruct (N.eqb_spec t abi.String) as [->|?].
  { split; [intros [= <-]; auto 6 | intros [[? _]|[[? _]|[[? _]|[_ ->]]]]; easy]. }
  split; [discriminate | intros [[? _]|[[? _]|[[? _]|[? _]]]]; contradiction].
Qed.

Lemma TypeMatches_lookup (t : abi.Type_) (R : reflect.Type_) :
  abi.TypeMatches t R = true <-> abi.typeTable !! t = Some R.
Proof.
  unfold abi.TypeMatches.
  destruct (abi.typeTable !! t) as [rt|]; [|easy].
  rewrite bool_decide_eq_true. split; congruence.
Qed.

(** The payloads that match a tag, constructor by constructor. *)
Lemma TypeMatches_TypeOf (t : abi.Type_) (v : iface) :
  abi.TypeMatches t (TypeOf v) = true <->
    (t = abi.Address /\ exists a, v = IAddress a) \/
    (t = abi.Integer /\ exists p, v = IBigInt p) \/
    (t = abi.Bytes /\ exists b, v = IBytes b) \/
    (t = abi.String /\ exists s, v = IString s).
Proof.
  rewrite TypeMatches_lookup, typeTable_entries. split.
  - intros [[-> H]|[[-> H]|[[-> H]|[-> H]]]];
      destruct v; try discriminate H; eauto 8.
  - intros [[-> [? ->]]|[[-> [? ->]]|[[-> [? ->]]|[-> [? ->]]]]];
      cbn; auto 6.
Qed.

(** C8: [TypeMatches t R] is true exactly when the registry maps [t] to
    [R]; it is false for the Invalid tag, for every tag outside the
    enumeration and for every representation other than the registered one.
    The registry holds the address type for Address, the big-integer
    pointer for Integer, the byte slice for Bytes and the string type for
    String, and nothing else. *)
Theorem C8_TypeMatches_registry (T : abi.Type_) (R : reflect.Type_) :
  (abi.TypeMatches T R = true <-> abi.typeTable !! T = Some R) /\
  abi.TypeMatches abi.Invalid R = false /\
  (~ In T members -> abi.TypeMatches T R = false) /\
  (forall rt, abi.typeTable !! T = Some rt -> rt <> R ->
              abi.TypeMatches T R = false) /\
  (abi.typeTable !! T = Some R <->
     (T = abi.Address /\ R = Some reflect.AddressT) \/
     (T = abi.Integer /\ R = Some reflect.BigIntPtrT) \/
     (T = abi.Bytes /\ R = Some reflect.ByteSliceT) \/
     (T = abi.String /\ R = Some reflect.StringT)).
Proof.
  split; [apply TypeMatches_lookup|].
  split; [reflexivity|].
  split.
  - intros Hout. unfold abi.TypeMatches.
    destruct (abi.typeTable !! T) as [rt|] eqn:E; [|reflexivity].
    exfalso. apply Hout.
    assert (In T valid_tags) as HT by (apply typeTable_valid; eauto).
    right. exact HT.
  - split; [|apply typeTable_entries].
    intros rt E Hne. unfold abi.TypeMatches. rewrite E.
    apply bool_decide_eq_false. exact Hne.
Qed.

(** A tag outside the enumeration and a mismatched representation, checked
    against the registry. *)
Lemma C8_witness :
  abi.TypeMatches 9%N (Some reflect.StringT) = false /\
  abi.TypeMatches abi.Bytes (Some reflect.StringT) = false.
Proof.
  split.
  - apply (C8_TypeMatches_registry 9%N (Some reflect.StringT)).
    unfold members. cbn. intuition discriminate.
  - apply (proj1 (proj2 (proj2 (proj2
             (C8_TypeMatches_registry abi.Bytes (Some reflect.StringT)))))
             (Some reflect.ByteSliceT)).
    + vm_compute. reflexivity.
    + discriminate.
Defined.

(** ** Decoding *)

Lemma not_member (t : abi.Type_) :
  ~ In t members <->
    t <> abi.Invalid /\ t <> abi.Address /\ t <> abi.Integer /\
    t <> abi.Bytes /\ t <> abi.String.
Proof. unfold members. cbn [In]. intuition congruence. Qed.

Lemma Deserialize_valid (data : slice byte) (t : abi.Type_) :
  In t valid_tags ->
  exists val, abi.Deserialize data t = (Some (abi.mkValue t val), None) /\
              abi.TypeMatches t (TypeOf val) = true.
Proof.
  unfold valid_tags. cbn [In].
  intros [<-|[<-|[<-|[<-|[]]]]]; eexists; split; reflexivity.
Qed.

Lemma Deserialize_unrecognized (data : slice byte) (t : abi.Type_) :
  ~ In t members ->
  abi.Deserialize data t = (None, Some (abi.errUnrecognized t)).
Proof.
  rewrite not_member. intros (H0 & H1 & H2 & H3 & H4).
  unfold abi.Deserialize. case_tag t; congruence.
Qed.

(** C2: [Deserialize] reports [ErrInvalidType] exactly for the Invalid tag,
    the unrecognized-type error exactly for a tag outside the five members,
    returns no value with either error, and for each of the four valid tags
    returns a value and no error whatever the bytes are (nil included). *)
Theorem C2_Deserialize_errors (data : slice byte) (t : abi.Type_) :
  (snd (abi.Deserialize data t) = Some abi.ErrInvalidType <->
     t = abi.Invalid) /\
  (snd (abi.Deserialize data t) = Some (abi.errUnrecognized t) <->
     ~ In t members) /\
  (forall e, snd (abi.Deserialize data t) = Some e ->
             fst (abi.Deserialize data t) = None) /\
  (In t valid_tags ->
     exists v, abi.Deserialize data t = (Some v, None) /\
               abi.Value_Type v = t).
Proof.
  repeat split.
  - unfold abi.Deserialize. case_tag t; cbn; try discriminate; auto.
  - intros ->. reflexivity.
  - intros E Hin. unfold members in Hin. cbn [In] in Hin.
    destruct Hin as [<-|Hin].
    + discriminate E.
    + destruct (Deserialize_valid data t Hin) as (val & Ev & _).
      rewrite Ev in E. discriminate E.
  - intros Hout. rewrite Deserialize_unrecognized by exact Hout. reflexivity.
  - intros e. unfold abi.Deserialize. case_tag t; cbn; try discriminate; auto.
  - intros Hin. destruct (Deserialize_valid data t Hin) as (val & Ev & _).
    eexists. split; [exact Ev|reflexivity].
Qed.

(** Decoding a three-byte input that is no well-formed text under the
    String tag. *)
Lemma C2_witness :
  exists v, abi.Deserialize (Some [xff; x00; xfe]) abi.String = (Some v, None) /\
            abi.Value_Type v = abi.String.
Proof.
  apply (C2_Deserialize_errors (Some [xff; x00; xfe]) abi.String).
  unfold valid_tags. cbn. auto.
Defined.

(** ** Concrete encodings *)

(** C4: the bytes 01 02 03 under the Bytes tag encode to themselves and
    decode to themselves; the integer 300 encodes to the two bytes 01 2C and
    those decode to 300 under the Integer tag. *)
Theorem C4_concrete_encodings :
  abi.Serialize (abi.mkValue abi.Bytes (IBytes (Some [x01; x02; x03])))
    = Return (Some [x01; x02; x03], None) /\
  abi.Deserialize (Some [x01; x02; x03]) abi.Bytes
    = (Some (abi.mkValue abi.Bytes (IBytes (Some [x01; x02; x03]))), None) /\
  abi.Serialize (abi.mkValue abi.Integer (IBigInt (Some 300%Z)))
    = Return (Some [x01; x2c], None) /\
  abi.Deserialize (Some [x01; x2c]) abi.Integer
    = (Some (abi.mkValue abi.Integer (IBigInt (Some 300%Z))), None).
Proof. repeat split. Qed.

(** ** Empty and nil inputs of the bulk adapters *)

(** C7: [ToValues] returns the nil slice (and no error) for the empty slice
    and for the nil slice, and [FromValues] returns the nil slice for both;
    in no case is the result an allocated zero-length slice. *)
Theorem C7_empty_normalizes_to_nil :
  abi.ToValues (Some []) = (None, None) /\
  abi.ToValues None = (None, None) /\
  abi.FromValues (Some []) = Return None /\
  abi.FromValues None = Return None /\
  fst (abi.ToValues (Some [])) <> Some [] /\
  abi.FromValues (Some []) <> Return (Some []).
Proof. repeat split; discriminate. Qed.

(** ** The integer zero *)

(** C9: the integer zero encodes to an allocated slice of length zero, the
    empty slice and the nil slice both decode to zero under the Integer
    tag, and zero is the only integer whose encoding has length zero. *)
Theorem C9_zero_is_empty :
  abi.Serialize (abi.mkValue abi.Integer (IBigInt (Some 0%Z)))
    = Return (Some [], None) /\
  abi.Deserialize (Some []) abi.Integer
    = (Some (abi.mkValue abi.Integer (IBigInt (Some 0%Z))), None) /\
  abi.Deserialize None abi.Integer
    = (Some (abi.mkValue abi.Integer (IBigInt (Some 0%Z))), None) /\
  (forall x : big.Int,
     abi.Serialize (abi.mkValue abi.Integer (IBigInt (Some x)))
       = Return (Some [], None) <-> x = 0%Z).
Proof.
  repeat split.
  - cbn. unfold big.Bytes. intros [= E].
    apply nat_bytes_nil in E. lia.
  - intros ->. reflexivity.
Qed.

(** ** Encoding *)

Lemma Serialize_unrecognized (t : abi.Type_) (val : iface) :
  ~ In t members ->
  abi.Serialize (abi.mkValue t val)
    = Return (None, Some (abi.errUnrecognized t)).
Proof.
  rewrite not_member. intros (H0 & H1 & H2 & H3 & H4).
  unfold abi.Serialize. cbn [abi.Value_Type]. case_tag t; congruence.
Qed.

(** A valid tag over a payload of another dynamic type (or none). *)
Lemma Serialize_mismatch (t : abi.Type_) (val : iface) (rt : reflect.Type_) :
  abi.typeTable !! t = Some rt -> TypeOf val <> rt ->
  exists exp, TypeOf exp = rt /\
    abi.Serialize (abi.mkValue t val) = Return (None, Some (typeError exp val)).
Proof.
  intros E Hne. apply typeTable_entries in E.
  destruct E as [[-> ->]|[[-> ->]|[[-> ->]|[-> ->]]]];
    eexists; (split; [|destruct val; cbn in Hne; try congruence; reflexivity]);
    reflexivity.
Qed.

(** A valid tag over a payload of the registered dynamic type, a nil
    [*big.Int] excepted. *)
Lemma Serialize_match (t : abi.Type_) (val : iface) :
  abi.typeTable !! t = Some (TypeOf val) -> val <> IBigInt None ->
  exists data, abi.Serialize (abi.mkValue t val) = Return (data, None).
Proof.
  intros E Hnil. apply TypeMatches_lookup, TypeMatches_TypeOf in E.
  destruct E as [[-> [a ->]]|[[-> [p ->]]|[[-> [b ->]]|[-> [s' ->]]]]];
    try (eexists; reflexivity).
  destruct p as [x|]; [eexists; reflexivity|congruence].
Qed.

(** C3 (amended): [Serialize] returns [ErrInvalidType] for the Invalid
    tag; a [typeError] carrying a value of the registered representation
    and the payload when the tag is valid and the payload has another
    representation; the unrecognized-type error for a tag outside the
    enumeration; and bytes with no error in every remaining case in which
    the payload is not a nil big-integer pointer. *)
Theorem C3_Serialize_outcomes (av : abi.Value) :
  (abi.Value_Type av = abi.Invalid ->
     abi.Serialize av = Return (None, Some abi.ErrInvalidType)) /\
  (forall rt, abi.typeTable !! abi.Value_Type av = Some rt ->
     TypeOf (abi.Value_Val av) <> rt ->
     exists exp, TypeOf exp = rt /\
       abi.Serialize av = Return (None, Some (typeError exp (abi.Value_Val av)))) /\
  (~ In (abi.Value_Type av) members ->
     abi.Serialize av
       = Return (None, Some (abi.errUnrecognized (abi.Value_Type av)))) /\
  (forall rt, abi.typeTable !! abi.Value_Type av = Some rt ->
     TypeOf (abi.Value_Val av) = rt ->
     abi.Value_Val av <> IBigInt None ->
     exists data, abi.Serialize av = Return (data, None)).
Proof.
  destruct av as [t val]. cbn [abi.Value_Type abi.Value_Val].
  split; [intros ->; reflexivity|].
  split; [intros rt; apply Serialize_mismatch|].
  split; [apply Serialize_unrecognized|].
  intros rt E <-. apply Serialize_match. exact E.
Qed.

(** The four branches at concrete values: the Invalid tag, a string under
    the Bytes tag, tag 7, and a string under the String tag. *)
Lemma C3_witness :
  abi.Serialize (abi.mkValue abi.Invalid (IString "x"))
    = Return (None, Some abi.ErrInvalidType) /\
  (exists exp, TypeOf exp = Some reflect.ByteSliceT /\
     abi.Serialize (abi.mkValue abi.Bytes (IString "x"))
       = Return (None, Some (typeError exp (IString "x")))) /\
  abi.Serialize (abi.mkValue 7%N (IString "x"))
    = Return (None, Some (abi.errUnrecognized 7%N)) /\
  (exists data,
     abi.Serialize (abi.mkValue abi.String (IString "x")) = Return (data, None)).
Proof.
  pose proof (C3_Serialize_outcomes (abi.mkValue abi.Invalid (IString "x")))
    as (H1 & _).
  pose proof (C3_Serialize_outcomes (abi.mkValue abi.Bytes (IString "x")))
    as (_ & H2 & _).
  pose proof (C3_Serialize_outcomes (abi.mkValue 7%N (IString "x")))
    as (_ & _ & H3 & _).
  pose proof (C3_Serialize_outcomes (abi.mkValue abi.String (IString "x")))
    as (_ & _ & _ & H4).
  split; [apply H1; reflexivity|].
  split; [apply H2; [vm_compute; reflexivity|discriminate]|].
  split; [apply H3; unfold members; cbn; intuition discriminate|].
  apply (H4 (Some reflect.StringT)); [vm_compute; reflexivity|reflexivity|discriminate].
Defined.

(** The Integer tag over a nil [*big.Int]: the tag is valid and the
    payload has the registered representation, yet the call panics instead
    of returning bytes. *)
Lemma C3_counterexample :
  ~ Serialize_as_stated (abi.mkValue abi.Integer (IBigInt None)).
Proof.
  intros (_ & _ & _ & H).
  destruct (H (Some reflect.BigIntPtrT)) as [data E].
  - vm_compute. reflexivity.
  - reflexivity.
  - discriminate E.
Qed.

(** C10: under each of the four valid tags, encoding a value whose payload
    is the untyped nil returns no bytes and a [typeError] that carries a
    value of the registered representation together with the nil payload;
    it does not panic. *)
Theorem C10_nil_payload_is_mismatch (T : abi.Type_) :
  In T valid_tags ->
  exists exp,
    abi.typeTable !! T = Some (TypeOf exp) /\
    abi.Serialize (abi.mkValue T INil) = Return (None, Some (typeError exp INil)).
Proof.
  unfold valid_tags. cbn [In].
  intros [<-|[<-|[<-|[<-|[]]]]]; eexists; (split; [|reflexivity]);
    vm_compute; reflexivity.
Qed.

Lemma C10_witness :
  exists exp,
    abi.typeTable !! abi.Integer = Some (TypeOf exp) /\
    abi.Serialize (abi.mkValue abi.Integer INil)
      = Return (None, Some (typeError exp INil)).
Proof.
  apply (C10_nil_payload_is_mismatch abi.Integer).
  unfold valid_tags. cbn. auto.
Defined.

(** ** Round trip *)

Lemma string_round_trip (s : string) :
  string_of_bytes (bytes_of_string s) = s.
Proof. apply string_of_list_byte_of_string. Qed.

Lemma Integer_round_trips (p : ptr big.Int) :
  round_trips (abi.mkValue abi.Integer (IBigInt p)) <->
  exists x : big.Int, p = Some x /\ (0 <= x)%Z.
Proof.
  unfold round_trips. cbn [abi.Value_Type]. split.
  - intros (data & Es & Ed). destruct p as [x|]; [|discriminate Es].
    cbn in Es. injection Es as <-.
    unfold abi.Deserialize in Ed. cbn in Ed.
    injection Ed as Ed. rewrite SetBytes_Bytes in Ed.
    exists x. split; [reflexivity|lia].
  - intros (x & -> & Hx). exists (big.Bytes x). split; [reflexivity|].
    unfold abi.Deserialize. cbn [N.eqb abi.Integer abi.Invalid abi.Address Pos.eqb].
    rewrite SetBytes_Bytes, Z.abs_eq by exact Hx. reflexivity.
Qed.

(** C1: for a tag [T] and a payload [v] of the representation the registry
    gives [T], encoding and then decoding under [T] returns the value when
    [T] is not Integer; under Integer it does so exactly when the payload
    points at a non-negative integer, and in general decoding the encoding
    of [x] yields the absolute value of [x]. *)
Theorem C1_round_trip (T : abi.Type_) (v : iface) :
  abi.TypeMatches T (TypeOf v) = true ->
  (T <> abi.Integer -> round_trips (abi.mkValue T v)) /\
  (T = abi.Integer ->
     (round_trips (abi.mkValue T v) <->
        exists x : big.Int, v = IBigInt (Some x) /\ (0 <= x)%Z) /\
     (forall x : big.Int, v = IBigInt (Some x) ->
        exists data,
          abi.Serialize (abi.mkValue T v) = Return (data, None) /\
          abi.Deserialize data T
            = (Some (abi.mkValue T (IBigInt (Some (Z.abs x)))), None))).
Proof.
  intros HM. apply TypeMatches_TypeOf in HM.
  destruct HM as [[-> [a ->]]|[[-> [p ->]]|[[-> [b ->]]|[-> [s ->]]]]].
  - split; [intros _|discriminate].
    exists (bytes_of_string a). split; [reflexivity|].
    unfold abi.Deserialize. cbn -[string_of_bytes bytes_of_string].
    rewrite string_round_trip. reflexivity.
  - split; [congruence|intros _]. split.
    + rewrite Integer_round_trips. split.
      * intros (x & -> & Hx). eauto.
      * intros (x & [= ->] & Hx). eauto.
    + intros x [= ->]. exists (big.Bytes x). split; [reflexivity|].
      unfold abi.Deserialize. cbn -[big.SetBytes big.Bytes].
      rewrite SetBytes_Bytes. reflexivity.
  - split; [intros _|discriminate].
    exists b. split; reflexivity.
  - split; [intros _|discriminate].
    exists (bytes_of_string s). split; [reflexivity|].
    unfold abi.Deserialize. cbn -[string_of_bytes bytes_of_string].
    rewrite string_round_trip. reflexivity.
Qed.

(** The string "hi" round-trips; minus five does not, it comes back as
    five. *)
Lemma C1_witness :
  round_trips (abi.mkValue abi.String (IString "hi")) /\
  ~ round_trips (abi.mkValue abi.Integer (IBigInt (Some (-5)%Z))).
Proof.
  split.
  - destruct (C1_round_trip abi.String (IString "hi")) as [H _].
    + vm_compute. reflexivity.
    + apply H. vm_compute. discriminate.
  - intros H.
    destruct (C1_round_trip abi.Integer (IBigInt (Some (-5)%Z))) as [_ H'].
    + vm_compute. reflexivity.
    + destruct (H' eq_refl) as [[H'' _] _].
      destruct (H'' H) as (x & E & Hx).
      injection E as <-. lia.
Defined.

(** ** Bulk adapters *)

Lemma supported_tag_of (v : iface) :
  supported v = true -> abi.TypeMatches (tag_of v) (TypeOf v) = true.
Proof. destruct v; cbn; intros H; try discriminate H; reflexivity. Qed.

Lemma supported_registry (v : iface) :
  supported v = true <-> exists t, abi.TypeMatches t (TypeOf v) = true.
Proof.
  split.
  - intros H. exists (tag_of v). apply supported_tag_of, H.
  - intros [t H]. apply TypeMatches_TypeOf in H.
    destruct H as [[_ [? ->]]|[[_ [? ->]]|[[_ [? ->]]|[_ [? ->]]]]];
      reflexivity.
Qed.

Lemma ToValues_loop_supported (i : list iface) :
  forall out : list (ptr abi.Value),
    Forall (fun v => supported v = true) i ->
    abi.ToValues_loop i out
      = (Some (out ++ map (fun v => Some (tagged v)) i)%list, None).
Proof.
  induction i as [|v i IH]; intros out Hall.
  - cbn. rewrite app_nil_r. reflexivity.
  - inversion Hall as [|? ? Hv Hi]; subst.
    destruct v; try discriminate Hv;
      cbn [abi.ToValues_loop]; rewrite IH by exact Hi;
      rewrite <- app_assoc; reflexivity.
Qed.

Lemma ToValues_loop_unsupported (pre : list iface) :
  forall (x : iface) (post : list iface) (out : list (ptr abi.Value)),
    Forall (fun v => supported v = true) pre ->
    supported x = false ->
    abi.ToValues_loop (pre ++ x :: post)%list out
      = (None, Some (abi.errUnsupported x)).
Proof.
  induction pre as [|v pre IH]; intros x post out Hall Hx.
  - destruct x; try discriminate Hx; reflexivity.
  - inversion Hall as [|? ? Hv Hpre]; subst.
    destruct v; try discriminate Hv;
      cbn [abi.ToValues_loop app]; apply IH; assumption.
Qed.

Lemma FromValues_loop_pointers (vs : list abi.Value) :
  forall out : list iface,
    abi.FromValues_loop (map Some vs) out
      = Return (Some (out ++ map abi.Value_Val vs)%list).
Proof.
  induction vs as [|v vs IH]; intros out.
  - cbn. rewrite app_nil_r. reflexivity.
  - cbn [map abi.FromValues_loop]. rewrite IH, <- app_assoc. reflexivity.
Qed.

Lemma FromValues_pointers (vs : list abi.Value) :
  abi.FromValues (pointers vs)
    = Return (if (length vs =? 0)%nat then None
              else Some (map abi.Value_Val vs)).
Proof.
  unfold abi.FromValues, pointers. cbn [len elems].
  rewrite length_map. destruct vs as [|v vs]; [reflexivity|].
  cbn [length Nat.eqb]. apply FromValues_loop_pointers.
Qed.

Lemma ToValues_supported (xs : slice iface) :
  Forall (fun v => supported v = true) (elems xs) ->
  abi.ToValues xs
    = (if (len xs =? 0)%nat then None else pointers (map tagged (elems xs)),
       None).
Proof.
  intros Hall. unfold abi.ToValues.
  destruct (len xs =? 0)%nat; [reflexivity|].
  rewrite ToValues_loop_supported by exact Hall.
  unfold pointers. rewrite map_map. reflexivity.
Qed.

Lemma len_0_elems {A : Type} (s : slice A) : len s = 0 -> elems s = [].
Proof. destruct s as [[|a l]|]; cbn; intros H; [reflexivity|discriminate H|reflexivity]. Qed.

(** C5: for a slice [xs] of supported native values, [ToValues] succeeds
    and [FromValues] of its result returns the elements of [xs] in order
    (the very slice [xs] when it is not empty); [FromValues] returns, without
    panicking, the payloads of any list of values, and nil for nil. *)
Theorem C5_FromValues_ToValues (xs : slice iface) :
  Forall (fun v => supported v = true) (elems xs) ->
  (exists vals out,
     abi.ToValues xs = (vals, None) /\
     abi.FromValues vals = Return out /\
     elems out = elems xs /\
     (len xs <> 0 -> out = xs)) /\
  (forall vs : list abi.Value,
     exists out,
       abi.FromValues (pointers vs) = Return out /\
       elems out = map abi.Value_Val vs) /\
  abi.FromValues None = Return None.
Proof.
  intros Hall. split; [|split; [|reflexivity]].
  - rewrite (ToValues_supported xs Hall).
    destruct (Nat.eqb_spec (len xs) 0) as [E|E].
    + exists None, None. rewrite (len_0_elems xs E).
      repeat split. intros H. contradiction.
    + destruct xs as [[|v l]|]; try (cbn in E; congruence).
      eexists; eexists. split; [reflexivity|].
      rewrite FromValues_pointers. cbn [elems].
      rewrite length_map, map_map. cbn [length Nat.eqb].
      unfold tagged. cbn [abi.Value_Val]. rewrite map_id.
      repeat split.
  - intros vs. rewrite FromValues_pointers.
    destruct vs as [|v vs]; eexists; split; reflexivity.
Qed.

(** The scenario of the specification: the string "hi" followed by the
    integer 300. *)
Lemma C5_witness :
  exists vals out,
    abi.ToValues (Some [IString "hi"; IBigInt (Some 300%Z)]) = (vals, None) /\
    abi.FromValues vals = Return out /\
    elems out = [IString "hi"; IBigInt (Some 300%Z)] /\
    (len (Some [IString "hi"; IBigInt (Some 300%Z)]) <> 0 ->
     out = Some [IString "hi"; IBigInt (Some 300%Z)]).
Proof.
  apply (C5_FromValues_ToValues (Some [IString "hi"; IBigInt (Some 300%Z)])).
  cbn [elems]. repeat constructor.
Defined.

Lemma first_unsupported (l : list iface) :
  Exists (fun v => supported v = false) l ->
  exists pre x post,
    l = (pre ++ x :: post)%list /\
    Forall (fun v => supported v = true) pre /\
    supported x = false.
Proof.
  induction l as [|v l IH]; intros Hex.
  - inversion Hex.
  - destruct (supported v) eqn:Ev.
    + inversion Hex as [? ? Hv|? ? Hl]; subst; [congruence|].
      destruct (IH Hl) as (pre & x & post & -> & Hpre & Hx).
      exists (v :: pre), x, post. repeat split; [constructor|]; assumption.
    + exists [], v, l. repeat split; [constructor|assumption].
Qed.

Lemma tagged_matches (l : list iface) :
  Forall (fun v => supported v = true) l ->
  Forall2 (fun x pv =>
             exists t, pv = Some (abi.mkValue t x) /\
                       abi.TypeMatches t (TypeOf x) = true)
          l (map (fun x => Some (tagged x)) l).
Proof.
  induction 1 as [|v l Hv Hl IH]; cbn [map]; constructor; [|exact IH].
  exists (tag_of v). split; [reflexivity|]. apply supported_tag_of, Hv.
Qed.

(** C6: when an element that no case of the type switch supports follows
    only supported elements, whatever comes after it, [ToValues] returns
    the nil slice and the unsupported-type error built from that element;
    so whenever some element is unsupported the result is nil with the
    error of an unsupported element of the input.  When every element is
    supported, [ToValues] returns no error and, position by position, a
    pointer to the element under the tag whose registered representation
    is the element's.  Supported means: of a representation the registry
    holds. *)
Theorem C6_ToValues_all_or_nothing (xs : slice iface) :
  (forall pre x post,
     elems xs = (pre ++ x :: post)%list ->
     Forall (fun v => supported v = true) pre ->
     supported x = false ->
     abi.ToValues xs = (None, Some (abi.errUnsupported x))) /\
  (Exists (fun v => supported v = false) (elems xs) ->
     exists x, In x (elems xs) /\ supported x = false /\
       abi.ToValues xs = (None, Some (abi.errUnsupported x))) /\
  (Forall (fun v => supported v = true) (elems xs) ->
     exists vals,
       abi.ToValues xs = (vals, None) /\
       Forall2 (fun x pv =>
                  exists t, pv = Some (abi.mkValue t x) /\
                            abi.TypeMatches t (TypeOf x) = true)
               (elems xs) (elems vals)) /\
  (forall v, supported v = true <->
             exists t, abi.TypeMatches t (TypeOf v) = true).
Proof.
  assert (forall pre x post,
     elems xs = (pre ++ x :: post)%list ->
     Forall (fun v => supported v = true) pre ->
     supported x = false ->
     abi.ToValues xs = (None, Some (abi.errUnsupported x))) as Hfirst.
  { intros pre x post E Hpre Hx. unfold abi.ToValues.
    destruct (Nat.eqb_spec (len xs) 0) as [E0|_].
    - apply len_0_elems in E0. rewrite E0 in E.
      destruct pre; discriminate E.
    - rewrite E. apply ToValues_loop_unsupported; assumption. }
  split; [exact Hfirst|]. split; [|split; [|apply supported_registry]].
  - intros Hex.
    destruct (first_unsupported _ Hex) as (pre & x & post & E & Hpre & Hx).
    exists x. split; [|split; [exact Hx|]].
    + rewrite E. apply in_or_app. right. left. reflexivity.
    + apply (Hfirst pre x post); assumption.
  - intros Hall. rewrite (ToValues_supported xs Hall).
    eexists. split; [reflexivity|].
    destruct (Nat.eqb_spec (len xs) 0) as [E0|_].
    + rewrite (len_0_elems xs E0). constructor.
    + unfold pointers. cbn [elems]. rewrite map_map.
      apply tagged_matches, Hall.
Qed.

(** A machine integer in second place, after a string and before a nil byte
    slice. *)
Lemma C6_witness :
  abi.ToValues (Some [IString "hi"; IOther "int" "5"; IBytes None])
    = (None, Some (errorString "unsupported type: int")).
Proof.
  apply (proj1 (C6_ToValues_all_or_nothing
                  (Some [IString "hi"; IOther "int" "5"; IBytes None]))
               [IString "hi"] (IOther "int" "5") [IBytes None]).
  - reflexivity.
  - repeat constructor.
  - reflexivity.
Defined.

(** * Further properties of the codec *)

(** ** Encoding against the registry *)

Lemma TypeMatches_not_member (t : abi.Type_) (R : reflect.Type_) :
  ~ In t members -> abi.TypeMatches t R = false.
Proof.
  intros Hout. unfold abi.TypeMatches.
  destruct (abi.typeTable !! t) as [rt|] eqn:E; [|reflexivity].
  exfalso. apply Hout. right. apply typeTable_valid. eauto.
Qed.

Lemma member_cases (t : abi.Type_) :
  t = abi.Invalid \/ t = abi.Address \/ t = abi.Integer \/
  t = abi.Bytes \/ t = abi.String \/ ~ In t members.
Proof.
  case_tag t; auto 6.
  do 5 right. apply not_member. auto.
Qed.

(** X1: [Serialize] returns an error exactly when [TypeMatches] rejects the
    payload's dynamic type for the tag, and with an error the byte slice is
    nil. *)
Theorem X1_Serialize_error_iff_mismatch (av : abi.Value) :
  ((exists data e, abi.Serialize av = Return (data, Some e)) <->
     abi.TypeMatches (abi.Value_Type av) (TypeOf (abi.Value_Val av)) = false) /\
  (forall data e, abi.Serialize av = Return (data, Some e) -> data = None).
Proof.
  destruct av as [t val]. cbn [abi.Value_Type abi.Value_Val].
  destruct (member_cases t) as [->|[->|[->|[->|[->|Hout]]]]].
  6:{ rewrite (Serialize_unrecognized t val Hout),
        (TypeMatches_not_member _ _ Hout).
      split; [split; eauto|]. intros data e [= <- _]. reflexivity. }
  all: split;
    [ split;
      [ intros (data & e & E); destruct val as [| |[|]| | |];
        cbn in E; try discriminate E; reflexivity
      | intros E; destruct val as [| |[|]| | |];
        try discriminate E; cbn; eauto ]
    | intros data e E; destruct val as [| |[|]| | |];
      cbn in E; try discriminate E; injection E as <- _; reflexivity ].
Qed.

(** A string under the Bytes tag: rejected by the registry, refused by
    [Serialize]. *)
Lemma X1_witness :
  exists data e,
    abi.Serialize (abi.mkValue abi.Bytes (IString "x")) = Return (data, Some e).
Proof.
  apply (proj2 (proj1 (X1_Serialize_error_iff_mismatch
                         (abi.mkValue abi.Bytes (IString "x"))))).
  reflexivity.
Defined.

(** X2: the only value on which [Serialize] panics is a nil [*big.Int]
    under the Integer tag. *)
Theorem X2_Serialize_panics_iff (av : abi.Value) :
  abi.Serialize av = Panic <-> av = abi.mkValue abi.Integer (IBigInt None).
Proof.
  split; [|intros ->; reflexivity].
  destruct av as [t val].
  destruct (member_cases t) as [->|[->|[->|[->|[->|Hout]]]]].
  6:{ rewrite (Serialize_unrecognized t val Hout). discriminate. }
  all: destruct val as [| |[|]| | |]; cbn; intros E;
    try discriminate E; reflexivity.
Qed.

(** ** Canonical integer encodings *)
Section Canonical.

Local Open Scope N_scope.

Lemma nat_setBytes_snoc (l : list byte) (b : byte) :
  big.nat_setBytes (l ++ [b])%list = big.nat_setBytes l * 256 + Byte.to_N b.
Proof. unfold big.nat_setBytes. rewrite fold_left_app. reflexivity. Qed.

Lemma byte_to_N_inj (a b : byte) : Byte.to_N a = Byte.to_N b -> a = b.
Proof.
  intros E. pose proof (Byte.of_to_N a) as Ha.
  rewrite E, Byte.of_to_N in Ha. congruence.
Qed.

Lemma byte_eqb_x00 (b : byte) : Byte.eqb b x00 = (Byte.to_N b =? 0).
Proof.
  destruct (Byte.eqb b x00) eqn:E.
  - apply Byte.byte_dec_bl in E. subst b. reflexivity.
  - symmetry. apply N.eqb_neq. intros H.
    assert (b = x00) as -> by (apply byte_to_N_inj; exact H).
    discriminate E.
Qed.

Lemma strip_zeros_nil_iff (l : list byte) :
  strip_zeros l = [] <-> big.nat_setBytes l = 0.
Proof.
  induction l as [|b l IH]; [easy|].
  cbn [strip_zeros]. rewrite nat_setBytes_cons, byte_eqb_x00.
  destruct (N.eqb_spec (Byte.to_N b) 0) as [E|E].
  - rewrite E, IH. lia.
  - split; [discriminate|]. intros H.
    assert (0 < 256 ^ N.of_nat (length l)) by (apply N.neq_0_lt_0, N.pow_nonzero; lia).
    nia.
Qed.

Lemma strip_zeros_snoc (l : list byte) (b : byte) :
  strip_zeros (l ++ [b])%list
  = match strip_zeros l with
    | [] => strip_zeros [b]
    | _ => (strip_zeros l ++ [b])%list
    end.
Proof.
  induction l as [|a l IH]; [reflexivity|].
  cbn [app strip_zeros]. destruct (Byte.eqb a x00); [exact IH|reflexivity].
Qed.

Lemma byte_of_N_snoc (n : N) (b : byte) :
  big.byte_of_N (n * 256 + Byte.to_N b) = b.
Proof.
  apply byte_to_N_inj. rewrite byte_of_N_to_N.
  pose proof (Byte.to_N_bounded b).
  rewrite N.add_comm, N.Div0.mod_add. apply N.mod_small. lia.
Qed.

(** [write_bytes] on the value of a byte string restores the string, its
    leading zero bytes excepted. *)
Lemma write_bytes_setBytes (l : list byte) :
  forall (fuel : nat) (buf : list byte),
    big.nat_setBytes l < 256 ^ N.of_nat fuel ->
    big.write_bytes fuel (big.nat_setBytes l) buf = (strip_zeros l ++ buf)%list.
Proof.
  induction l as [|b l IH] using rev_ind; intros fuel buf Hf.
  - destruct fuel; reflexivity.
  - rewrite nat_setBytes_snoc in *. rewrite strip_zeros_snoc.
    pose proof (Byte.to_N_bounded b) as Hb.
    destruct fuel as [|fuel].
    + cbn in Hf. assert (big.nat_setBytes l = 0) as E0 by lia.
      assert (Byte.to_N b = 0) as Eb by lia.
      apply strip_zeros_nil_iff in E0. rewrite E0.
      cbn [strip_zeros]. rewrite byte_eqb_x00, Eb. reflexivity.
    + cbn [big.write_bytes].
      destruct (N.eqb_spec (big.nat_setBytes l * 256 + Byte.to_N b) 0) as [E|E].
      * assert (big.nat_setBytes l = 0) as E0 by lia.
        assert (Byte.to_N b = 0) as Eb by lia.
        apply strip_zeros_nil_iff in E0. rewrite E0.
        cbn [strip_zeros]. rewrite byte_eqb_x00, Eb. reflexivity.
      * rewrite byte_of_N_snoc.
        replace ((big.nat_setBytes l * 256 + Byte.to_N b) / 256)
          with (big.nat_setBytes l)
          by (symmetry; rewrite N.add_comm, N.div_add by lia;
              rewrite N.div_small by lia; reflexivity).
        rewrite Nat2N.inj_succ, N.pow_succ_r' in Hf.
        rewrite IH by lia.
        destruct (strip_zeros l) as [|a r] eqn:Es.
        -- apply strip_zeros_nil_iff in Es.
           cbn [strip_zeros]. rewrite byte_eqb_x00.
           destruct (N.eqb_spec (Byte.to_N b) 0); [lia|reflexivity].
        -- rewrite <- app_assoc. reflexivity.
Qed.

Lemma nat_bytes_nat_setBytes (l : list byte) :
  big.nat_bytes (big.nat_setBytes l) = strip_zeros l.
Proof.
  unfold big.nat_bytes.
  rewrite write_bytes_setBytes by apply size_bound.
  apply app_nil_r.
Qed.

Lemma nat_setBytes_upper (l : list byte) :
  big.nat_setBytes l < 256 ^ N.of_nat (length l).
Proof.
  induction l as [|b l IH]; [reflexivity|].
  rewrite nat_setBytes_cons. cbn [length].
  rewrite Nat2N.inj_succ, N.pow_succ_r'.
  pose proof (Byte.to_N_bounded b). nia.
Qed.

Lemma nat_setBytes_lower (b : byte) (l : list byte) :
  b <> x00 -> 256 ^ N.of_nat (length l) <= big.nat_setBytes (b :: l).
Proof.
  intros Hb. rewrite nat_setBytes_cons.
  assert (Byte.to_N b <> 0) as H.
  { intros E. apply Hb. apply byte_to_N_inj. exact E. }
  nia.
Qed.

End Canonical.

Lemma Bytes_SetBytes (data : slice byte) :
  big.Bytes (big.SetBytes data) = Some (strip_zeros (elems data)).
Proof.
  unfold big.Bytes, big.SetBytes.
  rewrite Zabs2N.id, nat_bytes_nat_setBytes. reflexivity.
Qed.

Lemma bytes_round_trip (data : slice byte) :
  bytes_of_string (string_of_bytes data) = Some (elems data).
Proof.
  unfold bytes_of_string, string_of_bytes.
  rewrite list_byte_of_string_of_list_byte. reflexivity.
Qed.

(** X3: a value that [Deserialize] returns has the representation the
    registry gives its tag, and [Serialize] encodes it without error or
    panic: to the very input slice under Bytes, to the input bytes (in a
    non-nil slice) under Address and String, and to the input bytes
    without their leading zero bytes under Integer. *)
Theorem X3_Serialize_after_Deserialize
  (data : slice byte) (t : abi.Type_) (v : abi.Value) :
  abi.Deserialize data t = (Some v, None) ->
  well_tagged v /\
  exists data',
    abi.Serialize v = Return (data', None) /\
    (t = abi.Bytes -> data' = data) /\
    (t = abi.Address \/ t = abi.String -> data' = Some (elems data)) /\
    (t = abi.Integer -> data' = Some (strip_zeros (elems data))).
Proof.
  intros E.
  destruct (member_cases t) as [->|[->|[->|[->|[->|Hout]]]]].
  - discriminate E.
  - injection E as <-. split; [reflexivity|].
    exists (Some (elems data)). split.
    + cbn -[bytes_of_string string_of_bytes].
      rewrite bytes_round_trip. reflexivity.
    + repeat split; intros; try discriminate; intuition discriminate.
  - injection E as <-. split; [reflexivity|].
    exists (Some (strip_zeros (elems data))). split.
    + cbn -[big.Bytes big.SetBytes]. rewrite Bytes_SetBytes. reflexivity.
    + repeat split; intros; try discriminate; intuition discriminate.
  - injection E as <-. split; [reflexivity|].
    exists data. split; [reflexivity|].
    repeat split; intros; try discriminate; intuition discriminate.
  - injection E as <-. split; [reflexivity|].
    exists (Some (elems data)). split.
    + cbn -[bytes_of_string string_of_bytes].
      rewrite bytes_round_trip. reflexivity.
    + repeat split; intros; try discriminate; intuition discriminate.
  - rewrite (Deserialize_unrecognized data t Hout) in E. discriminate E.
Qed.

(** The bytes 00 00 01 2C decode to 300 and encode back as 01 2C. *)
Lemma X3_witness :
  exists data',
    abi.Serialize (abi.mkValue abi.Integer (IBigInt (Some 300%Z)))
      = Return (data', None) /\
    data' = Some [x01; x2c].
Proof.
  destruct (X3_Serialize_after_Deserialize
              (Some [x00; x00; x01; x2c]) abi.Integer
              (abi.mkValue abi.Integer (IBigInt (Some 300%Z))))
    as (_ & data' & E & _ & _ & H).
  - reflexivity.
  - exists data'. split; [exact E|]. apply H. reflexivity.
Defined.

(** X4: two integers are encoded to the same bytes exactly when they have
    the same absolute value; in particular [x] and [-x] collide. *)
Theorem X4_Integer_encoding_collisions (x y : big.Int) :
  abi.Serialize (abi.mkValue abi.Integer (IBigInt (Some x)))
    = abi.Serialize (abi.mkValue abi.Integer (IBigInt (Some y)))
  <-> Z.abs x = Z.abs y.
Proof.
  cbn -[big.Bytes]. split.
  - intros [= E]. apply (f_equal big.nat_setBytes) in E.
    rewrite !nat_setBytes_nat_bytes in E. lia.
  - intros E. unfold big.Bytes.
    replace (Z.abs_N y) with (Z.abs_N x) by lia. reflexivity.
Qed.

(** X5: under the Integer tag two byte slices decode to the same value
    exactly when they agree once their leading zero bytes are dropped, and
    the decoded integer is never negative. *)
Theorem X5_Integer_decoding_ignores_leading_zeros (d1 d2 : slice byte) :
  (abi.Deserialize d1 abi.Integer = abi.Deserialize d2 abi.Integer <->
     strip_zeros (elems d1) = strip_zeros (elems d2)) /\
  (exists x : big.Int,
     abi.Deserialize d1 abi.Integer
       = (Some (abi.mkValue abi.Integer (IBigInt (Some x))), None) /\
     (0 <= x)%Z).
Proof.
  split.
  - unfold abi.Deserialize. cbn -[big.SetBytes]. split.
    + intros [= E]. unfold big.SetBytes in E. apply N2Z.inj in E.
      rewrite <- !nat_bytes_nat_setBytes, E. reflexivity.
    + intros E. do 4 f_equal. unfold big.SetBytes. f_equal.
      rewrite <- (nat_setBytes_nat_bytes (big.nat_setBytes (elems d1))),
              <- (nat_setBytes_nat_bytes (big.nat_setBytes (elems d2))).
      rewrite !nat_bytes_nat_setBytes, E. reflexivity.
  - eexists. split; [reflexivity|]. unfold big.SetBytes. lia.
Qed.

(** X6: the encoding of an integer [x] never starts with a zero byte and
    is as short as the magnitude allows: with [n] bytes,
    [|x| < 256^n], and [256^(n-1) <= |x|] unless [x] is zero. *)
Theorem X6_Integer_encoding_length (x : big.Int) (data : slice byte) :
  abi.Serialize (abi.mkValue abi.Integer (IBigInt (Some x)))
    = Return (data, None) ->
  (Z.abs x < 256 ^ Z.of_nat (len data))%Z /\
  (x <> 0%Z -> (256 ^ (Z.of_nat (len data) - 1) <= Z.abs x)%Z) /\
  hd_error (elems data) <> Some x00.
Proof.
  cbn -[big.Bytes]. intros [= <-]. unfold big.Bytes. cbn [len elems].
  set (n := Z.abs_N x).
  assert (Z.abs x = Z.of_N n) as -> by (subst n; lia).
  pose proof (nat_setBytes_nat_bytes n) as Hn.
  split; [|split; [|apply nat_bytes_minimal]].
  - pose proof (nat_setBytes_upper (big.nat_bytes n)) as H.
    rewrite Hn in H. apply N2Z.inj_lt in H.
    rewrite N2Z.inj_pow, nat_N_Z in H. exact H.
  - intros Hx. pose proof (nat_bytes_minimal n) as Hmin.
    destruct (big.nat_bytes n) as [|b l] eqn:El.
    + apply nat_bytes_nil in El. subst n. lia.
    + assert (b <> x00) as Hb by (cbn in Hmin; congruence).
      pose proof (nat_setBytes_lower b l Hb) as H.
      rewrite Hn in H. apply N2Z.inj_le in H.
      rewrite N2Z.inj_pow, nat_N_Z in H. cbn [length].
      replace (Z.of_nat (S (length l)) - 1)%Z with (Z.of_nat (length l)) by lia.
      exact H.
Qed.

(** 65536 takes three bytes: 256^2 <= 65536 < 256^3. *)
Lemma X6_witness :
  (Z.abs 65536 < 256 ^ Z.of_nat (len (Some [x01; x00; x00])))%Z /\
  (65536%Z <> 0%Z ->
   (256 ^ (Z.of_nat (len (Some [x01; x00; x00])) - 1) <= Z.abs 65536)%Z) /\
  hd_error (elems (Some [x01; x00; x00])) <> Some x00.
Proof.
  apply (X6_Integer_encoding_length 65536%Z (Some [x01; x00; x00])).
  reflexivity.
Defined.

(** X7: decoding keeps the bytes apart: under Bytes two inputs decode to
    the same value only when they are the same slice, under String and
    Address exactly when they hold the same bytes (a nil and an empty
    slice both give the empty string). *)
Theorem X7_Deserialize_injective (d1 d2 : slice byte) :
  (abi.Deserialize d1 abi.Bytes = abi.Deserialize d2 abi.Bytes <-> d1 = d2) /\
  (abi.Deserialize d1 abi.String = abi.Deserialize d2 abi.String <->
     elems d1 = elems d2) /\
  (abi.Deserialize d1 abi.Address = abi.Deserialize d2 abi.Address <->
     elems d1 = elems d2).
Proof.
  unfold abi.Deserialize. cbn -[string_of_bytes].
  assert (forall a b : slice byte,
            string_of_bytes a = string_of_bytes b <-> elems a = elems b) as H.
  { intros a b. unfold string_of_bytes. split; [|congruence].
    intros E. apply (f_equal list_byte_of_string) in E.
    rewrite !list_byte_of_string_of_list_byte in E. exact E. }
  repeat split.
  - intros [= E]. exact E.
  - congruence.
  - intros [= E]. apply H, E.
  - intros E. apply H in E. rewrite E. reflexivity.
  - intros [= E]. apply H, E.
  - intros E. apply H in E. rewrite E. reflexivity.
Qed.

(** ** The bulk adapters, further *)

Lemma len_elems {A : Type} (s : slice A) : len s = length (elems s).
Proof. destruct s; reflexivity. Qed.

Lemma FromValues_loop_panics (vals : list (ptr abi.Value)) :
  forall out : list iface,
    abi.FromValues_loop vals out = Panic <-> In None vals.
Proof.
  induction vals as [|[v|] vals IH]; intros out; cbn [abi.FromValues_loop In].
  - split; [discriminate|contradiction].
  - rewrite IH. split; [auto|intros [H|H]; [discriminate H|exact H]].
  - split; auto.
Qed.

Lemma no_nil_pointers (vals : list (ptr abi.Value)) :
  ~ In None vals -> exists vs, vals = map Some vs.
Proof.
  induction vals as [|[v|] vals IH]; intros H.
  - exists []. reflexivity.
  - destruct IH as [vs ->]; [intros H'; apply H; right; exact H'|].
    exists (v :: vs). reflexivity.
  - exfalso. apply H. left. reflexivity.
Qed.

(** X8: [FromValues] panics exactly when the slice holds a nil pointer;
    otherwise it returns the payloads of the pointees in order, as the nil
    slice when there are none, and so as many elements as it was given. *)
Theorem X8_FromValues_panics_iff (vals : slice (ptr abi.Value)) :
  (abi.FromValues vals = Panic <-> In None (elems vals)) /\
  (~ In None (elems vals) ->
     exists vs,
       elems vals = map Some vs /\
       abi.FromValues vals
         = Return (if (len vals =? 0)%nat then None
                   else Some (map abi.Value_Val vs))) /\
  (forall out, abi.FromValues vals = Return out -> len out = len vals).
Proof.
  assert (~ In None (elems vals) ->
     exists vs,
       elems vals = map Some vs /\
       abi.FromValues vals
         = Return (if (len vals =? 0)%nat then None
                   else Some (map abi.Value_Val vs))) as Hret.
  { intros Hnn. destruct (no_nil_pointers _ Hnn) as [vs E].
    exists vs. split; [exact E|]. unfold abi.FromValues.
    destruct (len vals =? 0)%nat; [reflexivity|].
    rewrite E. apply FromValues_loop_pointers. }
  assert (abi.FromValues vals = Panic <-> In None (elems vals)) as Hpanic.
  { unfold abi.FromValues.
    destruct (Nat.eqb_spec (len vals) 0) as [E0|_].
    - rewrite (len_0_elems vals E0). split; [discriminate|contradiction].
    - apply FromValues_loop_panics. }
  split; [exact Hpanic|]. split; [exact Hret|].
  intros out E.
  assert (~ In None (elems vals)) as Hnn.
  { intros H. apply Hpanic in H. rewrite H in E. discriminate E. }
  destruct (Hret Hnn) as (vs & Evs & E'). rewrite E' in E.
  injection E as <-.
  destruct (Nat.eqb_spec (len vals) 0) as [E0|_]; [symmetry; exact E0|].
  rewrite (len_elems vals), Evs. cbn [len]. rewrite !length_map. reflexivity.
Qed.

(** A pointer, a nil pointer: the call panics. *)
Lemma X8_witness :
  abi.FromValues
    (Some [Some (abi.mkValue abi.String (IString "hi")); None]) = Panic /\
  exists vs,
    elems (Some [Some (abi.mkValue abi.String (IString "hi"))]) = map Some vs /\
    abi.FromValues (Some [Some (abi.mkValue abi.String (IString "hi"))])
      = Return (Some (map abi.Value_Val vs)).
Proof.
  split.
  - apply (X8_FromValues_panics_iff
             (Some [Some (abi.mkValue abi.String (IString "hi")); None])).
    cbn. auto.
  - apply (proj1 (proj2 (X8_FromValues_panics_iff
             (Some [Some (abi.mkValue abi.String (IString "hi"))])))).
    cbn. intros [H|[]]. discriminate H.
Defined.

Lemma well_tagged_tagged (v : abi.Value) :
  well_tagged v <->
  supported (abi.Value_Val v) = true /\ tagged (abi.Value_Val v) = v.
Proof.
  destruct v as [t val]. unfold well_tagged, tagged.
  cbn [abi.Value_Type abi.Value_Val]. rewrite TypeMatches_TypeOf. split.
  - intros [[-> [? ->]]|[[-> [? ->]]|[[-> [? ->]]|[-> [? ->]]]]];
      split; reflexivity.
  - intros [Hs [= <-]]. destruct val; try discriminate Hs; cbn; eauto 8.
Qed.

(** X9: [ToValues] after [FromValues] recomputes every tag from the
    payload: on values with supported payloads it returns each payload
    under the tag of its own representation, whatever tag the value
    carried, and so returns a non-empty list of well-tagged values
    unchanged. *)
Theorem X9_ToValues_after_FromValues (vs : list abi.Value) :
  Forall (fun v => supported (abi.Value_Val v) = true) vs ->
  exists out,
    abi.FromValues (pointers vs) = Return out /\
    abi.ToValues out
      = (if (length vs =? 0)%nat then None
         else pointers (map (fun v => tagged (abi.Value_Val v)) vs), None) /\
    (Forall well_tagged vs -> vs <> [] ->
     abi.ToValues out = (pointers vs, None)).
Proof.
  intros Hs. rewrite FromValues_pointers. eexists. split; [reflexivity|].
  assert (abi.ToValues
            (if (length vs =? 0)%nat then None
             else Some (map abi.Value_Val vs))
          = (if (length vs =? 0)%nat then None
             else pointers (map (fun v => tagged (abi.Value_Val v)) vs), None))
    as E.
  { destruct vs as [|v vs]; [reflexivity|].
    cbn [length Nat.eqb]. rewrite ToValues_supported.
    - cbn [len elems]. rewrite length_map, map_map. reflexivity.
    - cbn [elems]. apply Forall_map. exact Hs. }
  split; [exact E|].
  intros Hw Hne. eapply eq_trans; [exact E|].
  destruct vs as [|v vs]; [contradiction|]. cbn [length Nat.eqb].
  do 2 f_equal. rewrite <- (map_id (v :: vs)) at 2.
  apply map_ext_Forall.
  eapply Forall_impl; [exact Hw|].
  intros a Ha. apply well_tagged_tagged in Ha. apply Ha.
Qed.

(** A string carried under the Bytes tag comes back under the String
    tag. *)
Lemma X9_witness :
  exists out,
    abi.FromValues (pointers [abi.mkValue abi.Bytes (IString "x")])
      = Return out /\
    abi.ToValues out
      = (pointers [abi.mkValue abi.String (IString "x")], None).
Proof.
  destruct (X9_ToValues_after_FromValues [abi.mkValue abi.Bytes (IString "x")])
    as (out & E1 & E2 & _).
  - repeat constructor.
  - exists out. split; [exact E1|exact E2].
Defined.

Lemma supported_split (l : list iface) :
  Forall (fun v => supported v = true) l \/
  Exists (fun v => supported v = false) l.
Proof.
  induction l as [|v l [IH|IH]].
  - left. constructor.
  - destruct (supported v) eqn:Ev.
    + left. constructor; assumption.
    + right. apply Exists_cons_hd. exact Ev.
  - right. apply Exists_cons_tl. exact IH.
Qed.

Lemma ToValues_first_unsupported (pre : list iface) (x : iface)
  (post : list iface) :
  Forall (fun v => supported v = true) pre ->
  supported x = false ->
  abi.ToValues (Some (pre ++ x :: post)%list)
    = (None, Some (abi.errUnsupported x)).
Proof.
  intros Hpre Hx. unfold abi.ToValues. cbn [len elems].
  rewrite length_app. cbn [length].
  replace (length pre + S (length post) =? 0)%nat with false
    by (symmetry; apply Nat.eqb_neq; lia).
  apply ToValues_loop_unsupported; assumption.
Qed.

Lemma ToValues_ok_supported (xs : slice iface) (vals : slice (ptr abi.Value)) :
  abi.ToValues xs = (vals, None) ->
  Forall (fun v => supported v = true) (elems xs).
Proof.
  intros E. destruct (supported_split (elems xs)) as [H|H]; [exact H|].
  destruct (first_unsupported _ H) as (pre & x & post & El & Hpre & Hx).
  exfalso. unfold abi.ToValues in E.
  destruct (Nat.eqb_spec (len xs) 0) as [E0|_].
  - apply len_0_elems in E0. rewrite E0 in El. destruct pre; discriminate El.
  - rewrite El, (ToValues_loop_unsupported pre x post [] Hpre Hx) in E.
    discriminate E.
Qed.

Lemma elems_ToValues_supported (l : list iface) :
  Forall (fun v => supported v = true) l ->
  abi.ToValues (Some l) = (fst (abi.ToValues (Some l)), None) /\
  elems (fst (abi.ToValues (Some l))) = map (fun v => Some (tagged v)) l.
Proof.
  intros Hl. rewrite (ToValues_supported (Some l) Hl). cbn [len elems fst].
  destruct l as [|v l]; [split; reflexivity|].
  cbn [length Nat.eqb]. split; [reflexivity|].
  unfold pointers. cbn [elems]. apply map_map.
Qed.

(** X10: [ToValues] works from left to right.  An error on a slice is the
    error on every extension of it; after a slice that converts, the error
    is the one the extension alone would give, and when both convert the
    result is the first result followed by the second. *)
Theorem X10_ToValues_app (l1 l2 : list iface) :
  (forall e, snd (abi.ToValues (Some l1)) = Some e ->
             abi.ToValues (Some (l1 ++ l2)%list) = (None, Some e)) /\
  (snd (abi.ToValues (Some l1)) = None ->
     snd (abi.ToValues (Some (l1 ++ l2)%list)) = snd (abi.ToValues (Some l2)) /\
     (snd (abi.ToValues (Some l2)) = None ->
        elems (fst (abi.ToValues (Some (l1 ++ l2)%list)))
        = (elems (fst (abi.ToValues (Some l1)))
           ++ elems (fst (abi.ToValues (Some l2))))%list)).
Proof.
  split.
  - intros e E. destruct (supported_split l1) as [H|H].
    + destruct (elems_ToValues_supported l1 H) as [E1 _].
      rewrite E1 in E. discriminate E.
    + destruct (first_unsupported _ H) as (pre & x & post & -> & Hpre & Hx).
      rewrite (ToValues_first_unsupported pre x post Hpre Hx) in E.
      injection E as <-. rewrite <- app_assoc. cbn [app].
      apply ToValues_first_unsupported; assumption.
  - intros E.
    assert (Forall (fun v => supported v = true) l1) as H1.
    { apply (ToValues_ok_supported (Some l1) (fst (abi.ToValues (Some l1)))).
      destruct (abi.ToValues (Some l1)); cbn in *; congruence. }
    destruct (supported_split l2) as [H2|H2].
    + assert (Forall (fun v => supported v = true) (l1 ++ l2)%list) as H12
        by (apply Forall_app; split; assumption).
      destruct (elems_ToValues_supported l1 H1) as [_ R1].
      destruct (elems_ToValues_supported l2 H2) as [E2 R2].
      destruct (elems_ToValues_supported _ H12) as [E12 R12].
      rewrite R1, R2, R12, map_app. rewrite E2, E12. split; reflexivity.
    + destruct (first_unsupported _ H2) as (pre & x & post & -> & Hpre & Hx).
      rewrite (ToValues_first_unsupported pre x post Hpre Hx).
      rewrite app_assoc, (ToValues_first_unsupported (l1 ++ pre) x post).
      * split; [reflexivity|discriminate].
      * apply Forall_app; split; assumption.
      * exact Hx.
Qed.

(** A machine integer fails the slice it is in and every longer one. *)
Lemma X10_witness :
  abi.ToValues (Some ([IString "a"; IOther "int" "5"] ++ [IString "b"])%list)
    = (None, Some (errorString "unsupported type: int")).
Proof.
  apply (proj1 (X10_ToValues_app [IString "a"; IOther "int" "5"] [IString "b"])).
  reflexivity.
Defined.

(** X12: no value that [ToValues] produces makes [Serialize] return an
    error: every pointer in the result is non-nil, its value is encoded to
    bytes, and the one exception is a nil [*big.Int], which [ToValues]
    accepts under the Integer tag and on which [Serialize] panics. *)
Theorem X12_ToValues_then_Serialize
  (xs : slice iface) (vals : slice (ptr abi.Value)) :
  abi.ToValues xs = (vals, None) ->
  Forall (fun pv =>
            exists v, pv = Some v /\ well_tagged v /\
              ((exists data, abi.Serialize v = Return (data, None)) \/
               (abi.Serialize v = Panic /\ abi.Value_Val v = IBigInt None)))
         (elems vals).
Proof.
  intros E. pose proof (ToValues_ok_supported xs vals E) as Hs.
  rewrite (ToValues_supported xs Hs) in E. injection E as <-.
  assert (forall l, Forall (fun v => supported v = true) l ->
    Forall (fun pv =>
            exists v, pv = Some v /\ well_tagged v /\
              ((exists data, abi.Serialize v = Return (data, None)) \/
               (abi.Serialize v = Panic /\ abi.Value_Val v = IBigInt None)))
           (map Some (map tagged l))) as H.
  { induction 1 as [|x l Hx Hl IH]; cbn [map]; constructor; [|exact IH].
    exists (tagged x). split; [reflexivity|].
    split; [apply supported_tag_of, Hx|].
    destruct x as [| |[|]| | |]; try discriminate Hx; cbn; eauto. }
  destruct (len xs =? 0)%nat; [constructor|].
  apply H, Hs.
Qed.

(** A string and a nil [*big.Int]: the first is encoded, the second is
    accepted by [ToValues] and would panic in [Serialize]. *)
Lemma X12_witness :
  Forall (fun pv =>
            exists v, pv = Some v /\ well_tagged v /\
              ((exists data, abi.Serialize v = Return (data, None)) \/
               (abi.Serialize v = Panic /\ abi.Value_Val v = IBigInt None)))
         [Some (abi.mkValue abi.String (IString "hi"));
          Some (abi.mkValue abi.Integer (IBigInt None))].
Proof.
  apply (X12_ToValues_then_Serialize
           (Some [IString "hi"; IBigInt None])
           (Some [Some (abi.mkValue abi.String (IString "hi"));
                  Some (abi.mkValue abi.Integer (IBigInt None))])).
  reflexivity.
Defined.

(** ** Names and messages *)

Lemma Type_String_unknown (t : abi.Type_) :
  ~ In t members -> abi.Type_String t = "<unknown type>".
Proof.
  rewrite not_member. intros (H0 & H1 & H2 & H3 & H4).
  unfold abi.Type_String. case_tag t; congruence.
Qed.

Lemma Type_String_member (t : abi.Type_) :
  In t members -> abi.Type_String t <> "<unknown type>".
Proof.
  unfold members. cbn [In].
  intros [<-|[<-|[<-|[<-|[<-|[]]]]]]; discriminate.
Qed.

(** X13: [Type.String] gives the five members of the enumeration five
    different names and every other tag one further name, so two tags have
    the same name exactly when they are equal or both outside the
    enumeration. *)
Theorem X13_Type_String_distinguishes (t1 t2 : abi.Type_) :
  abi.Type_String t1 = abi.Type_String t2 <->
  t1 = t2 \/ (~ In t1 members /\ ~ In t2 members).
Proof.
  destruct (In_dec N.eq_dec t1 members) as [H1|H1];
    destruct (In_dec N.eq_dec t2 members) as [H2|H2].
  - split; [|intros [->|[? _]]; [reflexivity|contradiction]].
    intros E. left. unfold members in H1, H2. cbn [In] in H1, H2.
    destruct H1 as [<-|[<-|[<-|[<-|[<-|[]]]]]];
      destruct H2 as [<-|[<-|[<-|[<-|[<-|[]]]]]];
      try reflexivity; discriminate E.
  - rewrite (Type_String_unknown t2 H2). split.
    + intros E. exfalso. exact (Type_String_member t1 H1 E).
    + intros [->|[? _]]; contradiction.
  - rewrite (Type_String_unknown t1 H1). split.
    + intros E. exfalso. symmetry in E. exact (Type_String_member t2 H2 E).
    + intros [<-|[_ ?]]; contradiction.
  - rewrite (Type_String_unknown t1 H1), (Type_String_unknown t2 H2).
    split; auto.
Qed.

(** X14: the messages tell the errors apart.  The unrecognized-type
    message determines the tag, and no message of one kind (invalid type,
    unrecognized type, unsupported type, type mismatch) is a message of
    another kind, whatever tag or values are involved. *)
Theorem X14_error_messages_distinct :
  (forall t1 t2 : abi.Type_,
     Error (abi.errUnrecognized t1) = Error (abi.errUnrecognized t2) <->
     t1 = t2) /\
  (forall t, Error (abi.errUnrecognized t) <> Error abi.ErrInvalidType) /\
  (forall v, Error (abi.errUnsupported v) <> Error abi.ErrInvalidType) /\
  (forall t v, Error (abi.errUnrecognized t) <> Error (abi.errUnsupported v)) /\
  (forall exp got,
     Error (typeError exp got) <> Error abi.ErrInvalidType /\
     (forall t, Error (typeError exp got) <> Error (abi.errUnrecognized t)) /\
     (forall v, Error (typeError exp got) <> Error (abi.errUnsupported v))).
Proof.
  repeat split; try (cbn; discriminate).
  - cbn [Error abi.errUnrecognized String.append]. intros [= E].
    unfold fmt.verb_d in E. exact (pretty_N_inj t1 t2 E).
  - intros ->. reflexivity.
Qed.

(** ** Decoded values *)

(** X11: every value that [Deserialize] returns survives a further round
    trip: encoding it and decoding the result under the same tag gives the
    same value again, although the bytes in between may differ from the
    original input. *)
Theorem X11_decoded_values_round_trip
  (data : slice byte) (t : abi.Type_) (v : abi.Value) :
  abi.Deserialize data t = (Some v, None) -> round_trips v.
Proof.
  intros E.
  destruct (member_cases t) as [->|[->|[->|[->|[->|Hout]]]]].
  - discriminate E.
  - injection E as <-. exists (bytes_of_string (string_of_bytes data)).
    split; [reflexivity|].
    unfold abi.Deserialize. cbn -[bytes_of_string string_of_bytes].
    rewrite string_round_trip. reflexivity.
  - injection E as <-. apply Integer_round_trips.
    eexists. split; [reflexivity|]. unfold big.SetBytes. lia.
  - injection E as <-. exists data. split; reflexivity.
  - injection E as <-. exists (bytes_of_string (string_of_bytes data)).
    split; [reflexivity|].
    unfold abi.Deserialize. cbn -[bytes_of_string string_of_bytes].
    rewrite string_round_trip. reflexivity.
  - rewrite (Deserialize_unrecognized data t Hout) in E. discriminate E.
Qed.

(** The integer decoded from 00 FF round-trips, through the one byte FF. *)
Lemma X11_witness :
  round_trips (abi.mkValue abi.Integer (IBigInt (Some 255%Z))).
Proof.
  apply (X11_decoded_values_round_trip (Some [x00; xff]) abi.Integer).
  reflexivity.
Defined.
